(** * Type lowering of GraphQL result fields

    A shallow embedding of [ariadne_codegen/generators/result_fields.py]:
    the recursive descent [parse_operation_field_type] over the schema's
    output types, the conditional-directive post-pass of
    [parse_operation_field], and [is_nullable].

    Python values are embedded as follows.
    - graphql-core type objects: the inductive [GraphQLType], one
      constructor per class tested with [isinstance], plus one class the
      function does not handle;
    - [ast] annotation nodes: the inductive [expr] ([ast.Name],
      [ast.Subscript], [ast.Tuple]);
    - [Optional[Dict[str, ScalarData]]]: [option (gmap string ScalarData)];
    - a raised exception: the left injection of [result]. *)

From Stdlib Require Import Ascii.
From stdpp Require Import base option list strings gmap.

Open Scope string_scope.
Open Scope list_scope.

Set Warnings "-register-all".

(** ** Exceptions *)

Inductive exception : Type :=
| ParsingError (msg : string).

Definition result (A : Type) : Type := exception + A.

Definition ret {A} (a : A) : result A := inr a.
Definition raise {A} (e : exception) : result A := inl e.
Definition bind {A B} (m : result A) (k : A → result B) : result B :=
  match m with
  | inl e => inl e
  | inr a => k a
  end.

#[global] Instance result_ret : MRet result := @ret.
#[global] Instance result_bind : MBind result := λ A B k m, bind m k.

Definition raises {A} (m : result A) : bool :=
  match m with inl _ => true | inr _ => false end.

(** ** The input model: graphql-core types *)

(** [GraphQLInputObjectType] stands for the classes that
    [parse_operation_field_type] has no [isinstance] branch for; like
    every graphql-core type it can be wrapped by a list or a non-null. *)
Inductive GraphQLType : Type :=
| GraphQLScalarType (name : string)
| GraphQLObjectType (name : string)
| GraphQLInterfaceType (name : string)
| GraphQLEnumType (name : string)
| GraphQLUnionType (name : string) (types : list GraphQLType)
| GraphQLList (of_type : GraphQLType)
| GraphQLNonNull (of_type : GraphQLType)
| GraphQLInputObjectType (name : string).

Section GraphQLType_nested_ind.
Variable P : GraphQLType → Prop.
Hypothesis HScalar : ∀ name, P (GraphQLScalarType name).
Hypothesis HObject : ∀ name, P (GraphQLObjectType name).
Hypothesis HInterface : ∀ name, P (GraphQLInterfaceType name).
Hypothesis HEnum : ∀ name, P (GraphQLEnumType name).
Hypothesis HUnion : ∀ name types,
  Forall P types → P (GraphQLUnionType name types).
Hypothesis HList : ∀ t, P t → P (GraphQLList t).
Hypothesis HNonNull : ∀ t, P t → P (GraphQLNonNull t).
Hypothesis HInput : ∀ name, P (GraphQLInputObjectType name).

Fixpoint GraphQLType_nested_ind (t : GraphQLType) : P t :=
  match t with
  | GraphQLScalarType name => HScalar name
  | GraphQLObjectType name => HObject name
  | GraphQLInterfaceType name => HInterface name
  | GraphQLEnumType name => HEnum name
  | GraphQLUnionType name types =>
      HUnion name types
        ((fix members (ts : list GraphQLType) : Forall P ts :=
            match ts with
            | [] => Forall_nil_2 P
            | t' :: ts' =>
                Forall_cons_2 P t' ts' (GraphQLType_nested_ind t') (members ts')
            end) types)
  | GraphQLList t' => HList t' (GraphQLType_nested_ind t')
  | GraphQLNonNull t' => HNonNull t' (GraphQLType_nested_ind t')
  | GraphQLInputObjectType name => HInput name
  end.
End GraphQLType_nested_ind.

(** [ScalarData]: only the [type] attribute is read. *)
Record ScalarData : Type := mkScalarData { type : string }.

(** [DirectiveNode]: only [d.name.value] is read. *)
Record NameNode : Type := mkNameNode { value : string }.
Record DirectiveNode : Type := mkDirectiveNode { name : NameNode }.

(** [FieldNames = namedtuple("FieldNames", ["class_name", "type_name"])] *)
Record FieldNames : Type := mkFieldNames { class_name : string; type_name : string }.

(** ** The output model: [ast] annotations *)

Inductive expr : Type :=
| Name (id : string)
| Subscript (value : expr) (slice : expr)
| Tuple (elts : list expr).

Abbreviation Annotation := expr.

(** Modelled from the spec: [constants.py] is not under src/.  The built-in
    scalars (identifier, string, integer, float, boolean) map through a
    static table to the corresponding primitive; the opaque type is [Any];
    the two conditional-inclusion directives are [include] and [skip]. *)
Definition SIMPLE_TYPE_MAP : gmap string string :=
  list_to_map
    [("String", "str"); ("ID", "str"); ("Int", "int");
     ("Boolean", "bool"); ("Float", "float")].
Definition ANY : string := "Any".
Definition OPTIONAL : string := "Optional".
Definition LIST : string := "list".
Definition UNION : string := "Union".
Definition INCLUDE_DIRECTIVE_NAME : string := "include".
Definition SKIP_DIRECTIVE_NAME : string := "skip".

(** The four node kinds of the spec's annotation tree, as the [ast] shapes
    they are rendered to: [Named(x) → x], and a wrapper applied to [x] is
    the subscript [wrapper[x]]. *)
Definition Named (x : string) : Annotation := Name x.
Definition Optional (inner : Annotation) : Annotation :=
  Subscript (Name OPTIONAL) inner.
Definition ListOf (inner : Annotation) : Annotation :=
  Subscript (Name LIST) inner.
Definition UnionOf (variants : list Annotation) : Annotation :=
  Subscript (Name UNION) (Tuple variants).

(** [is_nullable], lines 128-133. *)
Definition is_nullable (annotation : Annotation) : bool :=
  match annotation with
  | Subscript (Name id) _ => bool_decide (id = OPTIONAL)
  | _ => false
  end.

(** Modelled from the spec: [codegen.py] is not under src/.  Section 4.3:
    the builders are pure constructors; wrapping an already-[Optional]
    annotation in [Optional] again collapses to a single [Optional]. *)
Definition generate_nullable_annotation (slice : Annotation) : Annotation :=
  if is_nullable slice then slice else Optional slice.

(** Modelled from the spec: [codegen.py] is not under src/.  [Named(name)],
    wrapped in [Optional] iff [nullable]. *)
Definition generate_annotation_name (name : string) (nullable : bool) : Annotation :=
  let result := Named name in
  if nullable then generate_nullable_annotation result else result.

(** Modelled from the spec: [codegen.py] is not under src/.  [ListOf(slice)],
    wrapped in [Optional] iff [nullable]. *)
Definition generate_list_annotation (slice : Annotation) (nullable : bool) : Annotation :=
  let result := ListOf slice in
  if nullable then generate_nullable_annotation result else result.

(** Modelled from the spec: [codegen.py] is not under src/.
    [UnionOf(types)], wrapped in [Optional] iff [nullable]; a one-element
    sequence is not special-cased. *)
Definition generate_union_annotation (types : list Annotation) (nullable : bool) : Annotation :=
  let result := UnionOf types in
  if nullable then generate_nullable_annotation result else result.

(** ** Python idioms *)

(** Truthiness of an [Optional[Dict]]: [None] and the empty dict are falsy. *)
Definition dict_truthy {V} (d : option (gmap string V)) : bool :=
  match d with
  | None => false
  | Some m => bool_decide (m ≠ ∅)
  end.

(** Truthiness of an [Optional[Tuple]]: [None] and [()] are falsy. *)
Definition tuple_truthy {A} (t : option (list A)) : bool :=
  match t with
  | None | Some [] => false
  | Some (_ :: _) => true
  end.

(** [for d in t] once [t] is known to be truthy. *)
Definition tuple_items {A} (t : option (list A)) : list A := default [] t.

(** ['"' + name + '"']: the annotation names the class by a string
    literal, a forward reference. *)
Definition quote : string := String (Ascii.ascii_of_nat 34) EmptyString.
Definition forward_reference (name : string) : string := quote +:+ name +:+ quote.

(** ** [parse_operation_field_type], lines 53-125 *)

(** The loop of the union branch (lines 93-104): [annotations] and [names]
    grow by [append] and [extend]; an exception raised by the body leaves
    the loop. *)
Definition for_subtypes
    (body : GraphQLType → result (Annotation * list FieldNames)) :
    list GraphQLType → list Annotation → list FieldNames →
    result (list Annotation * list FieldNames) :=
  fix loop types annotations names :=
    match types with
    | [] => ret (annotations, names)
    | subtype :: rest =>
        '(sub_annotation, sub_names) ← body subtype;
        loop rest (annotations ++ [sub_annotation]) (names ++ sub_names)
    end.

Fixpoint parse_operation_field_type
    (type_ : GraphQLType) (nullable : bool) (class_name : string)
    (add_type_name : bool) (custom_scalars : option (gmap string ScalarData))
    {struct type_} : result (Annotation * list FieldNames) :=
  match type_ with
  | GraphQLScalarType type_name =>
      match SIMPLE_TYPE_MAP !! type_name with
      | Some simple => ret (generate_annotation_name simple nullable, [])
      | None =>
          match (if dict_truthy custom_scalars
                 then default ∅ custom_scalars !! type_name else None) with
          | Some scalar =>
              ret (generate_annotation_name (type scalar) nullable,
                   [mkFieldNames (type scalar) type_name])
          | None => ret (generate_annotation_name ANY nullable, [])
          end
      end
  | GraphQLObjectType type_name | GraphQLInterfaceType type_name =>
      let name := if add_type_name then class_name +:+ type_name else class_name in
      ret (generate_annotation_name (forward_reference name) nullable,
           [mkFieldNames name type_name])
  | GraphQLEnumType type_name =>
      ret (generate_annotation_name type_name nullable,
           [mkFieldNames type_name type_name])
  | GraphQLUnionType _ types =>
      '(annotations, names) ←
        for_subtypes
          (λ subtype,
             parse_operation_field_type subtype false class_name true custom_scalars)
          types [] [];
      ret (generate_union_annotation annotations nullable, names)
  | GraphQLList of_type =>
      '(slice_, names) ←
        parse_operation_field_type of_type nullable class_name false custom_scalars;
      ret (generate_list_annotation slice_ nullable, names)
  | GraphQLNonNull of_type =>
      parse_operation_field_type of_type false class_name false custom_scalars
  | GraphQLInputObjectType _ =>
      raise (ParsingError "Invalid field type.")
  end.

(** ** [parse_operation_field], lines 36-50 *)

(** Lines 45-49: the post-pass on the annotation. *)
Definition directive_override
    (annotation : Annotation) (directives : option (list DirectiveNode)) : Annotation :=
  if negb (is_nullable annotation) && tuple_truthy directives then
    let nullable_directives := [INCLUDE_DIRECTIVE_NAME; SKIP_DIRECTIVE_NAME] in
    let directives_names := (λ d, value (name d)) <$> tuple_items directives in
    if existsb (λ n, bool_decide (n ∈ nullable_directives)) directives_names
    then generate_nullable_annotation annotation
    else annotation
  else annotation.

Definition parse_operation_field
    (type_ : GraphQLType) (directives : option (list DirectiveNode))
    (class_name : string) (custom_scalars : option (gmap string ScalarData)) :
    result (Annotation * list FieldNames) :=
  '(annotation, field_types_names) ←
    parse_operation_field_type type_ true class_name false custom_scalars;
  let annotation := directive_override annotation directives in
  ret (annotation, field_types_names).

(** ** Vocabulary of the statements *)

(** "wrapped in [Optional] iff [nullable]". *)
Definition per_nullable (nullable : bool) (a : Annotation) : Annotation :=
  if nullable then Optional a else a.

(** "the name is present in [customScalars]", with its entry. *)
Definition custom_scalar
    (custom_scalars : option (gmap string ScalarData)) (type_name : string) :
    option ScalarData :=
  custom_scalars ≫= (.!! type_name).

(** "some directive's name is one of the two conditional-inclusion
    names": a directive tuple is given and one of its members is named
    [include] or [skip]. *)
Definition conditionally_included (directives : option (list DirectiveNode)) : Prop :=
  ∃ ds d, directives = Some ds ∧ d ∈ ds ∧
          (value (name d) = "include" ∨ value (name d) = "skip").

(** "the annotation is already outermost-[Optional]". *)
Definition outermost_Optional (annotation : Annotation) : Prop :=
  ∃ inner, annotation = Optional inner.

(** The closed algebra: scalar, object, interface, enum, union, list and
    non-null nodes all the way down. *)
Fixpoint in_algebra (type_ : GraphQLType) : bool :=
  match type_ with
  | GraphQLScalarType _ | GraphQLObjectType _
  | GraphQLInterfaceType _ | GraphQLEnumType _ => true
  | GraphQLUnionType _ types => forallb in_algebra types
  | GraphQLList of_type | GraphQLNonNull of_type => in_algebra of_type
  | GraphQLInputObjectType _ => false
  end.

Definition invalid_field_type : exception := ParsingError "Invalid field type.".

(** [isinstance(type_, GraphQLNonNull)]. *)
Definition is_non_null (type_ : GraphQLType) : bool :=
  match type_ with GraphQLNonNull _ => true | _ => false end.

(** [isinstance(type_, (GraphQLObjectType, GraphQLInterfaceType))]. *)
Definition is_named_class (type_ : GraphQLType) : bool :=
  match type_ with
  | GraphQLObjectType _ | GraphQLInterfaceType _ => true
  | _ => false
  end.

(** An object or interface node occurs somewhere in the type. *)
Fixpoint mentions_class (type_ : GraphQLType) : bool :=
  match type_ with
  | GraphQLObjectType _ | GraphQLInterfaceType _ => true
  | GraphQLUnionType _ types => existsb mentions_class types
  | GraphQLList of_type | GraphQLNonNull of_type => mentions_class of_type
  | _ => false
  end.

(** The names of the scalar nodes of a type, in order. *)
Fixpoint scalar_names (type_ : GraphQLType) : list string :=
  match type_ with
  | GraphQLScalarType type_name => [type_name]
  | GraphQLUnionType _ types => flat_map scalar_names types
  | GraphQLList of_type | GraphQLNonNull of_type => scalar_names of_type
  | _ => []
  end.

(** The names of all named nodes of a type (scalars, objects, interfaces,
    enums; not the unions themselves), in order. *)
Fixpoint named_nodes (type_ : GraphQLType) : list string :=
  match type_ with
  | GraphQLScalarType type_name | GraphQLObjectType type_name
  | GraphQLInterfaceType type_name | GraphQLEnumType type_name => [type_name]
  | GraphQLUnionType _ types => flat_map named_nodes types
  | GraphQLList of_type | GraphQLNonNull of_type => named_nodes of_type
  | GraphQLInputObjectType _ => []
  end.

(** An [Optional[...]] subscript occurs somewhere in the annotation. *)
Fixpoint mentions_Optional (annotation : Annotation) : bool :=
  match annotation with
  | Name _ => false
  | Subscript value slice =>
      is_nullable annotation || mentions_Optional value || mentions_Optional slice
  | Tuple elts => existsb mentions_Optional elts
  end.

(** The shapes a reference emitted under the prefix [prefix] can have. *)
Definition reference_shape
    (prefix : string) (custom_scalars : option (gmap string ScalarData))
    (ref : FieldNames) : Prop :=
  class_name ref = type_name ref
  ∨ class_name ref = prefix
  ∨ class_name ref = prefix +:+ type_name ref
  ∨ ∃ scalar, custom_scalar custom_scalars (type_name ref) = Some scalar
              ∧ class_name ref = type scalar.

(** ** The annotation builders *)

Lemma is_nullable_Optional (a : Annotation) : is_nullable (Optional a) = true.
Proof. reflexivity. Qed.

Lemma is_nullable_Named (x : string) : is_nullable (Named x) = false.
Proof. reflexivity. Qed.

Lemma is_nullable_ListOf (a : Annotation) : is_nullable (ListOf a) = false.
Proof. reflexivity. Qed.

Lemma is_nullable_UnionOf (l : list Annotation) : is_nullable (UnionOf l) = false.
Proof. reflexivity. Qed.

Lemma is_nullable_outermost (a : Annotation) :
  is_nullable a = true ↔ outermost_Optional a.
Proof.
  split.
  - destruct a as [|[id| |] inner|]; simpl; try discriminate.
    intros Hid. apply bool_decide_eq_true in Hid. subst id. by exists inner.
  - intros [inner ->]. apply is_nullable_Optional.
Qed.

Lemma generate_nullable_annotation_fresh (a : Annotation) :
  is_nullable a = false → generate_nullable_annotation a = Optional a.
Proof. unfold generate_nullable_annotation. by intros ->. Qed.

Lemma generate_annotation_name_spec (x : string) (nullable : bool) :
  generate_annotation_name x nullable = per_nullable nullable (Named x).
Proof. by destruct nullable. Qed.

Lemma generate_list_annotation_spec (slice : Annotation) (nullable : bool) :
  generate_list_annotation slice nullable = per_nullable nullable (ListOf slice).
Proof. by destruct nullable. Qed.

Lemma generate_union_annotation_spec (l : list Annotation) (nullable : bool) :
  generate_union_annotation l nullable = per_nullable nullable (UnionOf l).
Proof. by destruct nullable. Qed.

(** No annotation is its own [Optional] wrapping. *)
Lemma Optional_neq (a : Annotation) : Optional a ≠ a.
Proof.
  unfold Optional. revert a.
  fix IH 1. intros [id|v s|elts]; try discriminate.
  intros Heq. injection Heq as Hv Hs. subst v. by apply (IH s).
Qed.

(** ** The union loop *)

Lemma for_subtypes_Forall2 body types rs annotations names :
  Forall2 (λ t r, body t = inr r) types rs →
  for_subtypes body types annotations names
  = inr (annotations ++ rs.*1, names ++ concat rs.*2).
Proof.
  intros HF. revert annotations names.
  induction HF as [|t [a ns] ts rs' Ht _ IH]; intros annotations names; simpl.
  - by rewrite !app_nil_r.
  - rewrite Ht. simpl. rewrite IH. by rewrite <- !app_assoc.
Qed.

Lemma for_subtypes_raises body types annotations names e :
  Forall (λ t, ∀ e', body t = inl e' → e' = e) types →
  existsb (λ t, raises (body t)) types = true →
  for_subtypes body types annotations names = inl e.
Proof.
  intros HF. revert annotations names.
  induction HF as [|t ts Ht _ IH]; intros annotations names; simpl; [done|].
  destruct (body t) as [e'|[a ns]] eqn:Hb; simpl.
  - intros _. by rewrite (Ht e').
  - apply IH.
Qed.

Lemma for_subtypes_returns {A B} (body : A → result B) (types : list A) :
  existsb (λ t, raises (body t)) types = false →
  ∃ rs, Forall2 (λ t r, body t = inr r) types rs.
Proof.
  induction types as [|t ts IH]; simpl; [by exists []|].
  destruct (body t) as [e'|r] eqn:Hb; simpl; [done|].
  intros [rs Hrs]%IH. exists (r :: rs). by constructor.
Qed.

(** ** Equations of [parse_operation_field_type] *)

Section lowering.
Context (class_name : string) (custom_scalars : option (gmap string ScalarData)).

Local Abbreviation lower t nullable add_type_name :=
  (parse_operation_field_type t nullable class_name add_type_name custom_scalars).

Lemma lower_union u types nullable add_type_name rs :
  Forall2 (λ t r, lower t false true = inr r) types rs →
  lower (GraphQLUnionType u types) nullable add_type_name
  = inr (per_nullable nullable (UnionOf rs.*1), concat rs.*2).
Proof.
  intros HF. simpl.
  rewrite (for_subtypes_Forall2 _ _ rs) by exact HF.
  simpl. by rewrite generate_union_annotation_spec.
Qed.

Lemma lower_list of_type nullable add_type_name :
  lower (GraphQLList of_type) nullable add_type_name
  = match lower of_type nullable false with
    | inl e => inl e
    | inr (slice_, names) => inr (per_nullable nullable (ListOf slice_), names)
    end.
Proof.
  simpl. destruct (lower of_type nullable false) as [e|[slice_ names]]; simpl; [done|].
  by rewrite generate_list_annotation_spec.
Qed.

(** With [nullable=False] the outermost node is never [Optional]. *)
Lemma lower_not_nullable t add_type_name annotation names :
  lower t false add_type_name = inr (annotation, names) →
  is_nullable annotation = false.
Proof.
  revert add_type_name annotation names.
  induction t as [x|x|x|x|u types|t IH|t IH|x];
    intros add_type_name annotation names; simpl.
  - destruct (SIMPLE_TYPE_MAP !! x); [by intros [= <- _]|].
    destruct (if dict_truthy _ then _ else _); by intros [= <- _].
  - by intros [= <- _].
  - by intros [= <- _].
  - by intros [= <- _].
  - destruct (for_subtypes _ _ _ _) as [e|[anns ns]]; simpl; [done|].
    by intros [= <- _].
  - destruct (lower t false false) as [e|[slice_ ns]]; simpl; [done|].
    by intros [= <- _].
  - apply IH.
  - done.
Qed.

(** The only exception is [ParsingError("Invalid field type.")]; it is
    raised exactly on the nodes outside the algebra. *)
Lemma lower_cases t :
  ∀ nullable add_type_name,
    if in_algebra t
    then ∃ r, lower t nullable add_type_name = inr r
    else lower t nullable add_type_name = inl invalid_field_type.
Proof.
  induction t as [x|x|x|x|u types IH|t IH|t IH|x] using GraphQLType_nested_ind;
    intros nullable add_type_name; simpl; eauto.
  - destruct (SIMPLE_TYPE_MAP !! x); [eauto|].
    destruct (if dict_truthy _ then _ else _); eauto.
  - set (body := λ subtype, lower subtype false true).
    assert (Hraises : existsb (λ t, raises (body t)) types
                      = negb (forallb in_algebra types)).
    { induction IH as [|t ts Ht _ IHts]; simpl; [done|].
      rewrite negb_andb, IHts. f_equal. subst body. simpl.
      specialize (Ht false true). destruct (in_algebra t).
      - by destruct Ht as [r ->].
      - by rewrite Ht. }
    destruct (forallb in_algebra types); simpl in Hraises.
    + apply for_subtypes_returns in Hraises as [rs Hrs].
      rewrite (for_subtypes_Forall2 body types rs) by exact Hrs. simpl. eauto.
    + rewrite (for_subtypes_raises body types [] [] invalid_field_type); [done| |done].
      eapply Forall_impl; [exact IH|]. intros t Ht e' He'. subst body. simpl in He'.
      specialize (Ht false true). destruct (in_algebra t).
      * destruct Ht as [r Hr]. congruence.
      * congruence.
  - specialize (IH nullable false). destruct (in_algebra t).
    + destruct IH as [[slice_ names] ->]. simpl. eauto.
    + by rewrite IH.
  - apply IH.
Qed.
End lowering.

(** ** [parse_operation_field] *)

Lemma parse_operation_field_eq type_ directives class_name custom_scalars :
  parse_operation_field type_ directives class_name custom_scalars
  = match parse_operation_field_type type_ true class_name false custom_scalars with
    | inl e => inl e
    | inr (annotation, names) =>
        inr (directive_override annotation directives, names)
    end.
Proof.
  unfold parse_operation_field.
  by destruct (parse_operation_field_type _ _ _ _ _) as [e|[annotation names]].
Qed.

Lemma nullable_directive_present (directives : option (list DirectiveNode)) :
  existsb
    (λ n, bool_decide (n ∈ [INCLUDE_DIRECTIVE_NAME; SKIP_DIRECTIVE_NAME]))
    ((λ d, value (name d)) <$> tuple_items directives) = true
  ↔ conditionally_included directives.
Proof.
  unfold conditionally_included. rewrite existsb_exists. split.
  - intros (n & Hin & Hn).
    apply list_elem_of_In, list_elem_of_fmap in Hin as (d & -> & Hd).
    apply bool_decide_eq_true in Hn.
    destruct directives as [ds|]; simpl in Hd; [|by apply elem_of_nil in Hd].
    exists ds, d. split; [done|]. split; [done|].
    apply elem_of_cons in Hn as [Hn|Hn]; [by left|right].
    by apply list_elem_of_singleton in Hn.
  - intros (ds & d & -> & Hd & Hn). exists (value (name d)). split.
    + apply list_elem_of_In, list_elem_of_fmap. eauto.
    + apply bool_decide_eq_true. destruct Hn as [-> | ->].
      * apply list_elem_of_here.
      * apply list_elem_of_further, list_elem_of_here.
Qed.

Lemma tuple_truthy_items {A} (t : option (list A)) :
  tuple_truthy t = false → tuple_items t = [].
Proof. by destruct t as [[|]|]. Qed.

Lemma directive_override_eq annotation directives :
  directive_override annotation directives
  = if negb (is_nullable annotation)
       && existsb
            (λ n, bool_decide (n ∈ [INCLUDE_DIRECTIVE_NAME; SKIP_DIRECTIVE_NAME]))
            ((λ d, value (name d)) <$> tuple_items directives)
    then Optional annotation else annotation.
Proof.
  unfold directive_override.
  destruct (is_nullable annotation) eqn:Hnull; simpl; [done|].
  destruct (tuple_truthy directives) eqn:Htruthy.
  - destruct (existsb _ _); [|done].
    by apply generate_nullable_annotation_fresh.
  - apply tuple_truthy_items in Htruthy. by rewrite Htruthy.
Qed.

(** * Properties of the lowering *)

(** C1: what the code returns at the two inputs of the claim, for every
    context.  [List(NonNull(Scalar(Int)))] with [nullable=True] lowers to
    [Optional(ListOf(Named(int)))], as claimed.
    [NonNull(List(Scalar(Int)))] with [nullable=True] lowers to
    [ListOf(Named(int))] and not to [ListOf(Optional(Named(int)))]: the
    non-null wrapper passes [nullable=False] to the list and the list
    hands the flag it received to its element, so the element loses its
    optionality together with the list, and the type is lowered like
    [NonNull(List(NonNull(Scalar(Int))))].  Both reference lists are
    empty. *)
Theorem list_nonnull_int_lowering class_name add_type_name custom_scalars :
  parse_operation_field_type
    (GraphQLList (GraphQLNonNull (GraphQLScalarType "Int")))
    true class_name add_type_name custom_scalars
  = inr (Optional (ListOf (Named "int")), [])
  ∧ parse_operation_field_type
      (GraphQLNonNull (GraphQLList (GraphQLScalarType "Int")))
      true class_name add_type_name custom_scalars
    = inr (ListOf (Named "int"), [])
  ∧ parse_operation_field_type
      (GraphQLNonNull (GraphQLList (GraphQLScalarType "Int")))
      true class_name add_type_name custom_scalars
    ≠ inr (ListOf (Optional (Named "int")), [])
  ∧ parse_operation_field_type
      (GraphQLNonNull (GraphQLList (GraphQLScalarType "Int")))
      true class_name add_type_name custom_scalars
    = parse_operation_field_type
        (GraphQLNonNull (GraphQLList (GraphQLNonNull (GraphQLScalarType "Int"))))
        true class_name add_type_name custom_scalars.
Proof. repeat split; try reflexivity. vm_compute. discriminate. Qed.

(** C2 (as stated, refuted): under [add_type_name=True] the non-null
    branch does not agree with lowering the inner object with the same
    context: the recursive call does not forward [add_type_name]. *)
Lemma nonnull_inversion_fails_with_type_name_suffix :
  parse_operation_field_type
    (GraphQLNonNull (GraphQLObjectType "A")) true "Op" true None
  ≠ parse_operation_field_type (GraphQLObjectType "A") false "Op" true None.
Proof. vm_compute. discriminate. Qed.

(** C2 (amended): for every node [T], flag [nullable] and context,
    lowering [NonNull(T)] is lowering [T] with [nullable=False], the same
    [class_name] and [custom_scalars], and [add_type_name] reset to
    [False]; so the inversion law holds for every context whose
    [add_type_name] is [False]. *)
Theorem nonnull_inversion T nullable class_name add_type_name custom_scalars :
  parse_operation_field_type
    (GraphQLNonNull T) nullable class_name add_type_name custom_scalars
  = parse_operation_field_type T false class_name false custom_scalars
  ∧ parse_operation_field_type (GraphQLNonNull T) true class_name false custom_scalars
    = parse_operation_field_type T false class_name false custom_scalars.
Proof. split; reflexivity. Qed.

(** C3 (as stated, refuted): under [add_type_name=True] the list branch
    does not wrap the lowering of its inner node taken with the same
    context. *)
Lemma list_rule_fails_with_type_name_suffix :
  ¬ ∃ inner_annotation refs,
      parse_operation_field_type (GraphQLObjectType "A") false "Op" true None
      = inr (inner_annotation, refs)
      ∧ parse_operation_field_type
          (GraphQLList (GraphQLObjectType "A")) false "Op" true None
        = inr (per_nullable false (ListOf inner_annotation), refs).
Proof.
  intros (inner_annotation & refs & Hinner & Hlist).
  vm_compute in Hinner, Hlist. congruence.
Qed.

(** C3 (amended): for every list node, the inner node is lowered with the
    same [nullable] flag, the same [class_name] and [custom_scalars], and
    [add_type_name] reset to [False]; an exception of the inner call
    propagates; otherwise the inner annotation is wrapped in [ListOf],
    that in [Optional] iff [nullable], and the inner reference list is
    returned unchanged. *)
Theorem list_lowering of_type nullable class_name add_type_name custom_scalars :
  parse_operation_field_type
    (GraphQLList of_type) nullable class_name add_type_name custom_scalars
  = match parse_operation_field_type of_type nullable class_name false custom_scalars with
    | inl e => inl e
    | inr (inner_annotation, refs) =>
        inr (per_nullable nullable (ListOf inner_annotation), refs)
    end.
Proof. apply lower_list. Qed.

(** C4: a scalar whose name is in the static table lowers to the
    primitive's [Named], wrapped per [nullable], with no reference;
    otherwise one present in [custom_scalars] lowers to [Named] of the
    entry's type with the single reference (type, scalar name); otherwise
    it lowers to [Named(Any)] with no reference. *)
Theorem scalar_dispatch type_name nullable class_name add_type_name custom_scalars :
  parse_operation_field_type
    (GraphQLScalarType type_name) nullable class_name add_type_name custom_scalars
  = inr match SIMPLE_TYPE_MAP !! type_name with
        | Some simple => (per_nullable nullable (Named simple), [])
        | None =>
            match custom_scalar custom_scalars type_name with
            | Some scalar =>
                (per_nullable nullable (Named (type scalar)),
                 [mkFieldNames (type scalar) type_name])
            | None => (per_nullable nullable (Named ANY), [])
            end
        end.
Proof.
  simpl. destruct (SIMPLE_TYPE_MAP !! type_name) as [simple|].
  { by rewrite generate_annotation_name_spec. }
  assert (Hlookup :
    (if dict_truthy custom_scalars
     then default ∅ custom_scalars !! type_name else None)
    = custom_scalar custom_scalars type_name).
  { destruct custom_scalars as [m|]; simpl; [|done].
    case_bool_decide as Hm; [done|].
    subst m. by rewrite lookup_empty. }
  rewrite Hlookup.
  destruct (custom_scalar custom_scalars type_name) as [scalar|];
    by rewrite generate_annotation_name_spec.
Qed.

(** The spec's examples of custom scalar resolution. *)
Example custom_scalar_DateTime :
  parse_operation_field_type (GraphQLScalarType "DateTime") false "" false
    (Some {[ "DateTime" := mkScalarData "MyDate" ]})
  = inr (Named "MyDate", [mkFieldNames "MyDate" "DateTime"]).
Proof. by vm_compute. Qed.

Example custom_scalar_Upload_unregistered :
  parse_operation_field_type (GraphQLScalarType "Upload") false "" false
    (Some {[ "DateTime" := mkScalarData "MyDate" ]})
  = inr (Named ANY, []).
Proof. by vm_compute. Qed.

(** C5: for every union node whose variants, taken in declaration order
    with [nullable=False], [add_type_name=True] and the caller's
    [class_name] and [custom_scalars], lower to the results [rs], the union
    lowers to [UnionOf] of the variants' annotations in that order, wrapped
    in [Optional] iff [nullable], together with the concatenation of the
    variants' reference lists; no variant annotation is outermost
    [Optional], and the [UnionOf] has one entry per variant (one entry for
    a single-variant union). *)
Theorem union_lowering
    u types nullable class_name add_type_name custom_scalars rs :
  Forall2
    (λ variant r,
       parse_operation_field_type variant false class_name true custom_scalars
       = inr r)
    types rs →
  parse_operation_field_type
    (GraphQLUnionType u types) nullable class_name add_type_name custom_scalars
  = inr (per_nullable nullable (UnionOf rs.*1), concat rs.*2)
  ∧ Forall (λ annotation, ¬ outermost_Optional annotation) rs.*1
  ∧ length rs.*1 = length types.
Proof.
  intros HF. split; [by apply lower_union|]. split.
  - apply Forall_fmap. induction HF as [|t [a ns] ts rs' Ht _ IH]; constructor; [|done].
    simpl. rewrite <- is_nullable_outermost.
    apply lower_not_nullable in Ht. by rewrite Ht.
  - rewrite length_fmap. symmetry. by eapply Forall2_length.
Qed.

(** C5, at a union that repeats a member and at a single-variant union. *)
Lemma union_lowering_witness :
  parse_operation_field_type
    (GraphQLUnionType "U"
       [GraphQLObjectType "A"; GraphQLEnumType "E"; GraphQLObjectType "A"])
    true "Op" false None
  = inr (Optional (UnionOf [Named (forward_reference "OpA"); Named "E";
                            Named (forward_reference "OpA")]),
         [mkFieldNames "OpA" "A"; mkFieldNames "E" "E"; mkFieldNames "OpA" "A"])
  ∧ parse_operation_field_type
      (GraphQLUnionType "U" [GraphQLObjectType "A"]) false "Op" false None
    = inr (UnionOf [Named (forward_reference "OpA")], [mkFieldNames "OpA" "A"]).
Proof.
  split.
  - apply (union_lowering "U"
             [GraphQLObjectType "A"; GraphQLEnumType "E"; GraphQLObjectType "A"]
             true "Op" false None
             [(Named (forward_reference "OpA"), [mkFieldNames "OpA" "A"]);
              (Named "E", [mkFieldNames "E" "E"]);
              (Named (forward_reference "OpA"), [mkFieldNames "OpA" "A"])]).
    repeat constructor.
  - apply (union_lowering "U" [GraphQLObjectType "A"] false "Op" false None
             [(Named (forward_reference "OpA"), [mkFieldNames "OpA" "A"])]).
    repeat constructor.
Defined.

(** The forward reference is the name between two double-quote
    characters (character 34). *)
Lemma forward_reference_quoted (name : string) :
  forward_reference name
  = String "034"%char (name +:+ String "034"%char EmptyString).
Proof. reflexivity. Qed.

(** C6: an object or interface node lowers to [Named] of the forward
    reference to [localName], that is [localName] written between two
    double-quote characters, wrapped per [nullable], with the single
    reference [(localName, node.name)], where [localName] is
    [class_name + node.name] under [add_type_name] and [class_name]
    otherwise; reached through a union under the prefixes [OpA] and [OpB],
    the object [Node] is annotated with the quoted names [OpANode] and
    [OpBNode] and yields the references [("OpANode", "Node")] and
    [("OpBNode", "Node")]. *)
Theorem object_interface_flattening
    (type_name : string) (nullable : bool) (class_name : string)
    (add_type_name : bool) (custom_scalars : option (gmap string ScalarData)) :
  let quoted (s : string) : string :=
    String "034"%char (s +:+ String "034"%char EmptyString) in
  let localName :=
    if add_type_name then class_name +:+ type_name else class_name in
  let lowered : result (Annotation * list FieldNames) :=
    inr (per_nullable nullable (Named (quoted localName)),
         [mkFieldNames localName type_name]) in
  parse_operation_field_type
    (GraphQLObjectType type_name) nullable class_name add_type_name custom_scalars
  = lowered
  ∧ parse_operation_field_type
      (GraphQLInterfaceType type_name) nullable class_name add_type_name custom_scalars
    = lowered
  ∧ ∀ u,
      parse_operation_field_type
        (GraphQLUnionType u [GraphQLObjectType "Node"])
        nullable "OpA" add_type_name custom_scalars
      = inr (per_nullable nullable (UnionOf [Named (quoted "OpANode")]),
             [mkFieldNames "OpANode" "Node"])
      ∧ parse_operation_field_type
          (GraphQLUnionType u [GraphQLObjectType "Node"])
          nullable "OpB" add_type_name custom_scalars
        = inr (per_nullable nullable (UnionOf [Named (quoted "OpBNode")]),
               [mkFieldNames "OpBNode" "Node"]).
Proof.
  simpl. rewrite generate_annotation_name_spec, generate_union_annotation_spec.
  rewrite forward_reference_quoted. by repeat split.
Qed.

(** C7: an enum node lowers to [Named(node.name)], wrapped per
    [nullable], with the single reference [(node.name, node.name)],
    whatever [class_name] and [add_type_name] are; in particular as a
    variant of a union. *)
Theorem enum_never_prefixed
    type_name nullable class_name add_type_name custom_scalars :
  parse_operation_field_type
    (GraphQLEnumType type_name) nullable class_name add_type_name custom_scalars
  = inr (per_nullable nullable (Named type_name),
         [mkFieldNames type_name type_name])
  ∧ ∀ u,
      parse_operation_field_type
        (GraphQLUnionType u [GraphQLEnumType type_name])
        nullable class_name add_type_name custom_scalars
      = inr (per_nullable nullable (UnionOf [Named type_name]),
             [mkFieldNames type_name type_name]).
Proof.
  split.
  - simpl. by rewrite generate_annotation_name_spec.
  - intros u. simpl. by rewrite generate_union_annotation_spec.
Qed.

(** C8: the directive post-pass returns the annotation wrapped in one
    [Optional] iff the annotation is not already outermost [Optional] and
    some directive is named [include] or [skip]; in every other case it
    returns the annotation itself.  Either way the given annotation is
    kept whole: nothing below its root is rewritten. *)
Theorem directive_override_spec annotation directives :
  (directive_override annotation directives = Optional annotation
   ↔ ¬ outermost_Optional annotation ∧ conditionally_included directives)
  ∧ (directive_override annotation directives = annotation
     ↔ ¬ (¬ outermost_Optional annotation ∧ conditionally_included directives)).
Proof.
  rewrite <- is_nullable_outermost, <- nullable_directive_present.
  rewrite directive_override_eq.
  pose proof (Optional_neq annotation) as Hneq.
  destruct (is_nullable annotation), (existsb _ _); simpl;
    intuition congruence.
Qed.

(** The spec's example: a non-null [String] field. *)
Example directive_on_nonnull_String :
  parse_operation_field (GraphQLNonNull (GraphQLScalarType "String"))
    (Some [mkDirectiveNode (mkNameNode "include")]) "" None
  = inr (Optional (Named "str"), [])
  ∧ parse_operation_field (GraphQLNonNull (GraphQLScalarType "String")) None "" None
    = inr (Named "str", []).
Proof. split; by vm_compute. Qed.

(** C9: [parse_operation_field_type] raises
    [ParsingError("Invalid field type.")] exactly when it reaches a node
    outside the algebra of scalar, object, interface, enum, union, list
    and non-null, and on every node built from those kinds only it returns
    an annotation with its reference list. *)
Theorem invalid_type_node_iff
    type_ nullable class_name add_type_name custom_scalars :
  (in_algebra type_ = false
   ↔ parse_operation_field_type type_ nullable class_name add_type_name custom_scalars
     = inl invalid_field_type)
  ∧ (in_algebra type_ = true
     ↔ ∃ annotation refs,
         parse_operation_field_type
           type_ nullable class_name add_type_name custom_scalars
         = inr (annotation, refs))
  ∧ (∀ e,
       parse_operation_field_type
         type_ nullable class_name add_type_name custom_scalars = inl e
       → e = invalid_field_type).
Proof.
  pose proof (lower_cases class_name custom_scalars type_ nullable add_type_name) as H.
  destruct (in_algebra type_).
  - destruct H as [[annotation refs] Hr]. rewrite Hr.
    repeat split; try done; eauto.
  - rewrite H. repeat split; try done.
    + by intros (? & ? & ?).
    + by intros e [= <-].
Qed.

(** C10: the directives never change the references: the reference list
    (or the exception) of [parse_operation_field] is that of the
    underlying [parse_operation_field_type] call. *)
Theorem directives_keep_references type_ directives class_name custom_scalars :
  sum_map id snd (parse_operation_field type_ directives class_name custom_scalars)
  = sum_map id snd
      (parse_operation_field_type type_ true class_name false custom_scalars).
Proof.
  rewrite parse_operation_field_eq.
  by destruct (parse_operation_field_type _ _ _ _ _) as [e|[annotation names]].
Qed.

(** * Further properties of the lowering *)

(** ** More on the union loop *)

Lemma for_subtypes_inv body types annotations0 names0 annotations names :
  for_subtypes body types annotations0 names0 = inr (annotations, names) →
  ∃ rs, Forall2 (λ t r, body t = inr r) types rs
        ∧ annotations = annotations0 ++ rs.*1
        ∧ names = names0 ++ concat rs.*2.
Proof.
  revert annotations0 names0.
  induction types as [|t ts IH]; intros annotations0 names0; simpl.
  - intros [= <- <-]. exists []. by rewrite !app_nil_r.
  - destruct (body t) as [e|[a ns]] eqn:Hb; simpl; [done|].
    intros (rs & HF & -> & ->)%IH. exists ((a, ns) :: rs).
    split; [by constructor|]. simpl. by rewrite <- !app_assoc.
Qed.

Lemma for_subtypes_ext body1 body2 types annotations names :
  Forall (λ t, body1 t = body2 t) types →
  for_subtypes body1 types annotations names
  = for_subtypes body2 types annotations names.
Proof.
  intros HF. revert annotations names.
  induction HF as [|t ts Ht _ IH]; intros annotations names; simpl; [done|].
  rewrite Ht. destruct (body2 t) as [e|[a ns]]; simpl; [done|]. apply IH.
Qed.

(** The [custom_scalars and type_.name in custom_scalars] test followed by
    the subscript is a lookup that treats [None] as the empty dict. *)
Lemma custom_scalars_lookup
    (custom_scalars : option (gmap string ScalarData)) (type_name : string) :
  (if dict_truthy custom_scalars
   then default ∅ custom_scalars !! type_name else None)
  = custom_scalar custom_scalars type_name.
Proof.
  destruct custom_scalars as [m|]; simpl; [|done].
  case_bool_decide as Hm; [done|]. subst m. by rewrite lookup_empty.
Qed.

Lemma is_nullable_per_nullable nullable a :
  is_nullable a = false → is_nullable (per_nullable nullable a) = nullable.
Proof. by destruct nullable. Qed.

Lemma lower_is_nullable t nullable class_name add_type_name custom_scalars annotation names :
  parse_operation_field_type t nullable class_name add_type_name custom_scalars
  = inr (annotation, names) →
  is_nullable annotation = nullable && negb (is_non_null t).
Proof.
  destruct t as [x|x|x|x|u types|t|t|x]; simpl; rewrite ?andb_true_r.
  - destruct (SIMPLE_TYPE_MAP !! x); [|destruct (if dict_truthy _ then _ else _)];
      intros [= <- _]; rewrite generate_annotation_name_spec;
      by apply is_nullable_per_nullable.
  - intros [= <- _]. rewrite generate_annotation_name_spec.
    by apply is_nullable_per_nullable.
  - intros [= <- _]. rewrite generate_annotation_name_spec.
    by apply is_nullable_per_nullable.
  - intros [= <- _]. rewrite generate_annotation_name_spec.
    by apply is_nullable_per_nullable.
  - destruct (for_subtypes _ _ _ _) as [e|[anns ns]]; simpl; [done|].
    intros [= <- _]. rewrite generate_union_annotation_spec.
    by apply is_nullable_per_nullable.
  - destruct (parse_operation_field_type t _ _ _ _) as [e|[slice_ ns]]; simpl; [done|].
    intros [= <- _]. rewrite generate_list_annotation_spec.
    by apply is_nullable_per_nullable.
  - rewrite andb_false_r. apply lower_not_nullable.
  - done.
Qed.

(** X1: the annotation returned by [parse_operation_field_type] is
    outermost [Optional] exactly when [nullable] is set and the node is not
    a non-null wrapper. *)
Theorem lowered_annotation_nullability
    t nullable class_name add_type_name custom_scalars annotation names :
  parse_operation_field_type t nullable class_name add_type_name custom_scalars
  = inr (annotation, names) →
  is_nullable annotation = nullable && negb (is_non_null t).
Proof. apply lower_is_nullable. Qed.

Lemma lowered_annotation_nullability_witness :
  is_nullable (Optional (ListOf (Named "int"))) = true
  ∧ is_nullable (ListOf (Named "int")) = false.
Proof.
  split.
  - apply (lowered_annotation_nullability
             (GraphQLList (GraphQLNonNull (GraphQLScalarType "Int")))
             true "" false None _ []).
    reflexivity.
  - apply (lowered_annotation_nullability
             (GraphQLNonNull (GraphQLList (GraphQLScalarType "Int")))
             true "" false None _ []).
    reflexivity.
Defined.

(** X2: the annotation returned by [parse_operation_field] is outermost
    [Optional] exactly when the field type is not a non-null wrapper or
    some directive is named [include] or [skip]. *)
Theorem field_annotation_nullability
    type_ directives class_name custom_scalars annotation names :
  parse_operation_field type_ directives class_name custom_scalars
  = inr (annotation, names) →
  outermost_Optional annotation
  ↔ is_non_null type_ = false ∨ conditionally_included directives.
Proof.
  rewrite parse_operation_field_eq.
  destruct (parse_operation_field_type _ _ _ _ _) as [e|[a ns]] eqn:Hlower; [done|].
  intros [= <- _]. apply lower_is_nullable in Hlower. simpl in Hlower.
  rewrite <- is_nullable_outermost, <- nullable_directive_present.
  rewrite directive_override_eq.
  destruct (is_non_null type_), (existsb _ _); simpl in *;
    rewrite Hlower; simpl; rewrite ?Hlower; intuition congruence.
Qed.

Lemma field_annotation_nullability_witness :
  outermost_Optional (Optional (Named "str"))
  ↔ is_non_null (GraphQLNonNull (GraphQLScalarType "String")) = false
    ∨ conditionally_included (Some [mkDirectiveNode (mkNameNode "skip")]).
Proof.
  apply (field_annotation_nullability
           (GraphQLNonNull (GraphQLScalarType "String"))
           (Some [mkDirectiveNode (mkNameNode "skip")]) "" None _ []).
  reflexivity.
Defined.

(** X3: when the field type is not a non-null wrapper, the directives are
    without effect: [parse_operation_field] returns what
    [parse_operation_field_type] returns with its default arguments. *)
Theorem directives_ignored_on_nullable_type
    type_ directives class_name custom_scalars :
  is_non_null type_ = false →
  parse_operation_field type_ directives class_name custom_scalars
  = parse_operation_field_type type_ true class_name false custom_scalars.
Proof.
  intros Hnn. rewrite parse_operation_field_eq.
  destruct (parse_operation_field_type _ _ _ _ _) as [e|[a ns]] eqn:Hlower; [done|].
  apply lower_is_nullable in Hlower. rewrite Hnn in Hlower.
  by rewrite directive_override_eq, Hlower.
Qed.

Lemma directives_ignored_on_nullable_type_witness :
  parse_operation_field (GraphQLList (GraphQLObjectType "A"))
    (Some [mkDirectiveNode (mkNameNode "include")]) "Op" None
  = parse_operation_field_type
      (GraphQLList (GraphQLObjectType "A")) true "Op" false None.
Proof.
  apply (directives_ignored_on_nullable_type
           (GraphQLList (GraphQLObjectType "A"))
           (Some [mkDirectiveNode (mkNameNode "include")]) "Op" None).
  reflexivity.
Defined.

(** X4: [parse_operation_field] raises
    [ParsingError("Invalid field type.")] exactly when the field type
    reaches a node outside the handled kinds, whatever the directives, and
    returns otherwise. *)
Theorem field_raises_iff type_ directives class_name custom_scalars :
  (in_algebra type_ = false
   ↔ parse_operation_field type_ directives class_name custom_scalars
     = inl invalid_field_type)
  ∧ (in_algebra type_ = true
     ↔ ∃ annotation refs,
         parse_operation_field type_ directives class_name custom_scalars
         = inr (annotation, refs)).
Proof.
  rewrite parse_operation_field_eq.
  pose proof (lower_cases class_name custom_scalars type_ true false) as H.
  destruct (in_algebra type_).
  - destruct H as [[annotation refs] ->]. repeat split; try done; eauto.
  - rewrite H. repeat split; try done. by intros (? & ? & ?).
Qed.

(** X5: the directive post-pass is idempotent: applied to its own result
    with the same directives it changes nothing, so no annotation is
    wrapped twice. *)
Theorem directive_override_idempotent annotation directives :
  directive_override (directive_override annotation directives) directives
  = directive_override annotation directives.
Proof.
  rewrite !directive_override_eq.
  destruct (is_nullable annotation) eqn:Hnull; simpl.
  - by rewrite Hnull.
  - destruct (existsb _ _); simpl; [done|]. by rewrite Hnull.
Qed.

(** ** Dependence on the arguments *)

Lemma existsb_false_Forall {A} (f : A → bool) (l : list A) :
  existsb f l = false ↔ Forall (λ x, f x = false) l.
Proof.
  induction l as [|x l IH]; simpl; [by split|].
  rewrite orb_false_iff, IH, Forall_cons. tauto.
Qed.

Lemma elem_of_flat_map {A B} (f : A → list B) (l : list A) (x : A) (y : B) :
  x ∈ l → y ∈ f x → y ∈ flat_map f l.
Proof.
  intros Hx Hy. apply list_elem_of_In, in_flat_map.
  exists x. by rewrite <- !list_elem_of_In.
Qed.

Lemma lower_custom_scalars_agree t custom_scalars1 custom_scalars2 :
  (∀ n, n ∈ scalar_names t → SIMPLE_TYPE_MAP !! n = None →
        custom_scalar custom_scalars1 n = custom_scalar custom_scalars2 n) →
  ∀ nullable class_name add_type_name,
    parse_operation_field_type t nullable class_name add_type_name custom_scalars1
    = parse_operation_field_type t nullable class_name add_type_name custom_scalars2.
Proof.
  induction t as [x|x|x|x|u types IH|t IH|t IH|x] using GraphQLType_nested_ind;
    intros Hagree nullable class_name add_type_name; simpl; try done.
  - destruct (SIMPLE_TYPE_MAP !! x) eqn:Hsimple; [done|].
    rewrite !custom_scalars_lookup, (Hagree x); [done| |done].
    apply list_elem_of_here.
  - rewrite (for_subtypes_ext _
               (λ subtype, parse_operation_field_type
                             subtype false class_name true custom_scalars2));
      [done|].
    apply Forall_forall. intros t Ht. rewrite Forall_forall in IH.
    apply IH; [done|]. intros n Hn. apply Hagree. simpl.
    by apply (elem_of_flat_map _ _ t).
  - by rewrite IH.
  - by apply IH.
Qed.

(** X9: the reference list (and whether an exception is raised) does not
    depend on [nullable]: the flag shapes the annotation only. *)
Theorem references_independent_of_nullable
    t nullable1 nullable2 class_name add_type_name custom_scalars :
  sum_map id snd
    (parse_operation_field_type t nullable1 class_name add_type_name custom_scalars)
  = sum_map id snd
      (parse_operation_field_type t nullable2 class_name add_type_name custom_scalars).
Proof.
  revert nullable1 nullable2 add_type_name.
  induction t as [x|x|x|x|u types|t IH|t IH|x];
    intros nullable1 nullable2 add_type_name; simpl; try done.
  - destruct (SIMPLE_TYPE_MAP !! x); [done|].
    by destruct (if dict_truthy _ then _ else _).
  - by destruct (for_subtypes _ _ _ _) as [e|[anns ns]].
  - specialize (IH nullable1 nullable2 false).
    destruct (parse_operation_field_type t nullable1 _ _ _) as [e1|[a1 ns1]],
             (parse_operation_field_type t nullable2 _ _ _) as [e2|[a2 ns2]];
      simpl in *; congruence.
Qed.

(** X10: a type in which no object or interface node occurs is lowered
    without reading [class_name] or [add_type_name]. *)
Theorem class_name_unused_without_classes
    t nullable class_name1 add_type_name1 class_name2 add_type_name2 custom_scalars :
  mentions_class t = false →
  parse_operation_field_type t nullable class_name1 add_type_name1 custom_scalars
  = parse_operation_field_type t nullable class_name2 add_type_name2 custom_scalars.
Proof.
  revert nullable class_name1 add_type_name1 class_name2 add_type_name2.
  induction t as [x|x|x|x|u types IH|t IH|t IH|x] using GraphQLType_nested_ind;
    simpl; intros nullable class_name1 add_type_name1 class_name2 add_type_name2 Hclass;
    try done.
  - rewrite (for_subtypes_ext _
               (λ subtype, parse_operation_field_type
                             subtype false class_name2 true custom_scalars));
      [done|].
    apply existsb_false_Forall in Hclass.
    rewrite Forall_forall in IH. rewrite Forall_forall in Hclass.
    apply Forall_forall. intros t Ht. apply IH; [done|]. by apply Hclass.
  - by rewrite (IH nullable class_name1 false class_name2 false Hclass).
  - by apply IH.
Qed.

(** X6: an empty [custom_scalars] dict behaves as [None]. *)
Theorem empty_custom_scalars_as_None t nullable class_name add_type_name :
  parse_operation_field_type t nullable class_name add_type_name (Some ∅)
  = parse_operation_field_type t nullable class_name add_type_name None.
Proof.
  apply lower_custom_scalars_agree. intros n _ _.
  unfold custom_scalar. simpl. apply lookup_empty.
Qed.

(** X7: the result depends on [custom_scalars] only through the entries of
    the scalars that occur in the type and are not built-in: two maps that
    agree on those give the same result (entries under other names,
    entries that shadow a built-in scalar, are never read). *)
Theorem custom_scalars_frame
    t nullable class_name add_type_name custom_scalars1 custom_scalars2 :
  (∀ n, n ∈ scalar_names t → SIMPLE_TYPE_MAP !! n = None →
        custom_scalar custom_scalars1 n = custom_scalar custom_scalars2 n) →
  parse_operation_field_type t nullable class_name add_type_name custom_scalars1
  = parse_operation_field_type t nullable class_name add_type_name custom_scalars2.
Proof. intros Hagree. by apply lower_custom_scalars_agree. Qed.

Lemma custom_scalars_frame_witness :
  parse_operation_field_type
    (GraphQLList (GraphQLScalarType "Int")) true "" false
    (Some {[ "Int" := mkScalarData "MyInt" ]})
  = parse_operation_field_type
      (GraphQLList (GraphQLScalarType "Int")) true "" false None.
Proof.
  apply (custom_scalars_frame
           (GraphQLList (GraphQLScalarType "Int")) true "" false
           (Some {[ "Int" := mkScalarData "MyInt" ]}) None).
  intros n Hn Hsimple. simpl in Hn. apply list_elem_of_singleton in Hn. subst n.
  vm_compute in Hsimple. discriminate.
Defined.

(** X8: [add_type_name] is read only at an object or interface node it is
    passed to directly: on every other node the result does not depend on
    it. *)
Theorem add_type_name_only_on_named_class
    t nullable class_name add_type_name1 add_type_name2 custom_scalars :
  is_named_class t = false →
  parse_operation_field_type t nullable class_name add_type_name1 custom_scalars
  = parse_operation_field_type t nullable class_name add_type_name2 custom_scalars.
Proof. by destruct t. Qed.

Lemma add_type_name_only_on_named_class_witness :
  parse_operation_field_type
    (GraphQLList (GraphQLObjectType "A")) true "Op" true None
  = parse_operation_field_type
      (GraphQLList (GraphQLObjectType "A")) true "Op" false None.
Proof.
  apply (add_type_name_only_on_named_class
           (GraphQLList (GraphQLObjectType "A")) true "Op" true false None).
  reflexivity.
Defined.

Lemma class_name_unused_without_classes_witness :
  parse_operation_field_type
    (GraphQLUnionType "U" [GraphQLEnumType "E"; GraphQLList (GraphQLScalarType "Int")])
    true "OpA" true None
  = parse_operation_field_type
      (GraphQLUnionType "U" [GraphQLEnumType "E"; GraphQLList (GraphQLScalarType "Int")])
      true "OpB" false None.
Proof.
  apply (class_name_unused_without_classes
           (GraphQLUnionType "U"
              [GraphQLEnumType "E"; GraphQLList (GraphQLScalarType "Int")])
           true "OpA" true "OpB" false None).
  reflexivity.
Defined.

(** X11: [parse_operation_field] depends on the directives only through
    whether one of them is named [include] or [skip]: order, repetition,
    other directives, and [None] against the empty tuple make no
    difference. *)
Theorem directives_matter_by_presence
    type_ directives1 directives2 class_name custom_scalars :
  (conditionally_included directives1 ↔ conditionally_included directives2) →
  parse_operation_field type_ directives1 class_name custom_scalars
  = parse_operation_field type_ directives2 class_name custom_scalars.
Proof.
  rewrite <- !nullable_directive_present. intros Hiff.
  rewrite !parse_operation_field_eq.
  destruct (parse_operation_field_type _ _ _ _ _) as [e|[a ns]]; [done|].
  rewrite !directive_override_eq.
  destruct (existsb _ _), (existsb _ _); try done;
    destruct Hiff as [H1 H2]; by (discriminate H1 || discriminate H2).
Qed.

Lemma directives_matter_by_presence_witness :
  parse_operation_field (GraphQLNonNull (GraphQLEnumType "E"))
    (Some [mkDirectiveNode (mkNameNode "skip")]) "Op" None
  = parse_operation_field (GraphQLNonNull (GraphQLEnumType "E"))
      (Some [mkDirectiveNode (mkNameNode "client");
             mkDirectiveNode (mkNameNode "include");
             mkDirectiveNode (mkNameNode "include")]) "Op" None.
Proof.
  apply (directives_matter_by_presence (GraphQLNonNull (GraphQLEnumType "E"))
           (Some [mkDirectiveNode (mkNameNode "skip")])
           (Some [mkDirectiveNode (mkNameNode "client");
                  mkDirectiveNode (mkNameNode "include");
                  mkDirectiveNode (mkNameNode "include")]) "Op" None).
  rewrite <- !nullable_directive_present. by vm_compute.
Defined.

(** ** Shape of the results *)

(** X12: every reference returned by [parse_operation_field_type] carries
    as [type_name] the name of a named node of the type, and as
    [class_name] that same name (enums), the prefix, the prefix followed
    by that name (objects and interfaces), or the registered type of that
    custom scalar. *)
Theorem references_shape
    t nullable class_name add_type_name custom_scalars annotation names :
  parse_operation_field_type t nullable class_name add_type_name custom_scalars
  = inr (annotation, names) →
  Forall (λ ref, type_name ref ∈ named_nodes t
                 ∧ reference_shape class_name custom_scalars ref) names.
Proof.
  revert nullable class_name add_type_name custom_scalars annotation names.
  induction t as [x|x|x|x|u types IH|t IH|t IH|x] using GraphQLType_nested_ind;
    intros nullable class_name add_type_name custom_scalars annotation names; simpl.
  - destruct (SIMPLE_TYPE_MAP !! x); [by intros [= _ <-]|].
    rewrite custom_scalars_lookup.
    destruct (custom_scalar custom_scalars x) as [scalar|] eqn:Hscalar;
      intros [= _ <-]; [|done].
    apply Forall_singleton; split; [apply list_elem_of_here|]; red; simpl. right; right; right. by exists scalar.
  - intros [= _ <-]. apply Forall_singleton; split; [apply list_elem_of_here|]; red; simpl.
    destruct add_type_name; [by right; right; left | by right; left].
  - intros [= _ <-]. apply Forall_singleton; split; [apply list_elem_of_here|]; red; simpl.
    destruct add_type_name; [by right; right; left | by right; left].
  - intros [= _ <-]. apply Forall_singleton; split; [apply list_elem_of_here|]; red; simpl. by left.
  - destruct (for_subtypes _ _ _ _) as [e|[anns ns]] eqn:Hloop; simpl; [done|].
    intros [= _ <-]. apply for_subtypes_inv in Hloop as (rs & HF & _ & ->). simpl.
    apply Forall_concat, Forall_fmap.
    apply (Forall2_Forall_r _ _ _ _ HF).
    rewrite Forall_forall in IH. apply Forall_forall. intros t Ht [a refs] Hlower.
    apply (IH t Ht) in Hlower. eapply Forall_impl; [exact Hlower|].
    intros ref [Hnode Hshape]. split; [|done].
    by apply (elem_of_flat_map _ _ t).
  - destruct (parse_operation_field_type t _ _ _ _) as [e|[slice_ ns]] eqn:Hlower;
      simpl; [done|].
    intros [= _ <-]. by apply IH in Hlower.
  - apply IH.
  - done.
Qed.

(** X13: lowered with [nullable=False], a type yields an annotation in
    which no [Optional] occurs at any depth: below a non-null wrapper
    nothing is optional, list elements and union members included. *)
Theorem no_Optional_below_non_null
    t class_name add_type_name custom_scalars annotation names :
  parse_operation_field_type t false class_name add_type_name custom_scalars
  = inr (annotation, names) →
  mentions_Optional annotation = false.
Proof.
  revert class_name add_type_name custom_scalars annotation names.
  induction t as [x|x|x|x|u types IH|t IH|t IH|x] using GraphQLType_nested_ind;
    intros class_name add_type_name custom_scalars annotation names; simpl.
  - destruct (SIMPLE_TYPE_MAP !! x); [by intros [= <- _]|].
    destruct (if dict_truthy _ then _ else _); by intros [= <- _].
  - by intros [= <- _].
  - by intros [= <- _].
  - by intros [= <- _].
  - destruct (for_subtypes _ _ _ _) as [e|[anns ns]] eqn:Hloop; simpl; [done|].
    intros [= <- _]. apply for_subtypes_inv in Hloop as (rs & HF & -> & _). simpl.
    apply existsb_false_Forall, Forall_fmap.
    apply (Forall2_Forall_r _ _ _ _ HF).
    eapply Forall_impl; [exact IH|]. intros t Ht [a refs] Hlower.
    by apply Ht in Hlower.
  - destruct (parse_operation_field_type t _ _ _ _) as [e|[slice_ ns]] eqn:Hlower;
      simpl; [done|].
    intros [= <- _]. by apply IH in Hlower.
  - apply IH.
  - done.
Qed.

Lemma lower_Optional_inner
    t nullable class_name add_type_name custom_scalars inner names :
  parse_operation_field_type t nullable class_name add_type_name custom_scalars
  = inr (Optional inner, names) →
  is_nullable inner = false.
Proof.
  assert (Hwrap : ∀ a, is_nullable a = false →
                       per_nullable nullable a = Optional inner →
                       is_nullable inner = false).
  { intros a Ha. destruct nullable; simpl.
    - by intros [= <-].
    - intros ->. by rewrite is_nullable_Optional in Ha. }
  destruct t as [x|x|x|x|u types|t|t|x]; simpl.
  - destruct (SIMPLE_TYPE_MAP !! x); [|destruct (if dict_truthy _ then _ else _)];
      rewrite generate_annotation_name_spec; intros [= H _];
      by apply (Hwrap _ (is_nullable_Named _)) in H.
  - rewrite generate_annotation_name_spec. intros [= H _].
    by apply (Hwrap _ (is_nullable_Named _)) in H.
  - rewrite generate_annotation_name_spec. intros [= H _].
    by apply (Hwrap _ (is_nullable_Named _)) in H.
  - rewrite generate_annotation_name_spec. intros [= H _].
    by apply (Hwrap _ (is_nullable_Named _)) in H.
  - destruct (for_subtypes _ _ _ _) as [e|[anns ns]]; simpl; [done|].
    rewrite generate_union_annotation_spec. intros [= H _].
    by apply (Hwrap _ (is_nullable_UnionOf _)) in H.
  - destruct (parse_operation_field_type t _ _ _ _) as [e|[slice_ ns]]; simpl; [done|].
    rewrite generate_list_annotation_spec. intros [= H _].
    by apply (Hwrap _ (is_nullable_ListOf _)) in H.
  - intros H. apply lower_not_nullable in H. by rewrite is_nullable_Optional in H.
  - done.
Qed.

Lemma references_shape_witness :
  Forall (λ ref, type_name ref
                 ∈ named_nodes
                     (GraphQLList
                        (GraphQLUnionType "U"
                           [GraphQLObjectType "A"; GraphQLEnumType "E"]))
                 ∧ reference_shape "Op" None ref)
    [mkFieldNames "OpA" "A"; mkFieldNames "E" "E"].
Proof.
  apply (references_shape
           (GraphQLList
              (GraphQLUnionType "U" [GraphQLObjectType "A"; GraphQLEnumType "E"]))
           true "Op" false None
           (Optional (ListOf (Optional
              (UnionOf [Named (forward_reference "OpA"); Named "E"]))))).
  reflexivity.
Defined.

Lemma no_Optional_below_non_null_witness :
  mentions_Optional
    (ListOf (ListOf (UnionOf [Named (forward_reference "OpA"); Named "E"])))
  = false.
Proof.
  apply (no_Optional_below_non_null
           (GraphQLList (GraphQLList
              (GraphQLUnionType "U" [GraphQLObjectType "A"; GraphQLEnumType "E"])))
           "Op" false None _
           [mkFieldNames "OpA" "A"; mkFieldNames "E" "E"]).
  reflexivity.
Defined.

(** X14: [parse_operation_field] never returns an [Optional] whose
    argument is itself outermost [Optional]. *)
Theorem field_annotation_never_doubly_Optional
    type_ directives class_name custom_scalars inner names :
  parse_operation_field type_ directives class_name custom_scalars
  = inr (Optional inner, names) →
  ¬ outermost_Optional inner.
Proof.
  rewrite <- is_nullable_outermost, parse_operation_field_eq.
  destruct (parse_operation_field_type _ _ _ _ _) as [e|[a ns]] eqn:Hlower; [done|].
  rewrite directive_override_eq. intros [= Ha _].
  destruct (is_nullable a) eqn:Hnull; simpl in Ha.
  - subst a. apply lower_Optional_inner in Hlower. by rewrite Hlower.
  - destruct (existsb _ _).
    + injection Ha as <-. by rewrite Hnull.
    + subst a. by rewrite is_nullable_Optional in Hnull.
Qed.

Lemma field_annotation_never_doubly_Optional_witness :
  ¬ outermost_Optional (ListOf (Named "int")).
Proof.
  apply (field_annotation_never_doubly_Optional
           (GraphQLNonNull (GraphQLList (GraphQLScalarType "Int")))
           (Some [mkDirectiveNode (mkNameNode "include")]) "" None _ []).
  reflexivity.
Defined.

(** X15: the references come in the order of the type's named nodes, at
    most one per node: their [type_name]s form a subsequence of the names
    of the scalar, object, interface and enum nodes read left to right. *)
Theorem references_follow_node_order
    t nullable class_name add_type_name custom_scalars annotation names :
  parse_operation_field_type t nullable class_name add_type_name custom_scalars
  = inr (annotation, names) →
  sublist (type_name <$> names) (named_nodes t).
Proof.
  revert nullable class_name add_type_name custom_scalars annotation names.
  induction t as [x|x|x|x|u types IH|t IH|t IH|x] using GraphQLType_nested_ind;
    intros nullable class_name add_type_name custom_scalars annotation names; simpl.
  - destruct (SIMPLE_TYPE_MAP !! x); [intros [= _ <-]; apply sublist_nil_l|].
    destruct (if dict_truthy _ then _ else _); intros [= _ <-]; simpl;
      [done|apply sublist_nil_l].
  - by intros [= _ <-].
  - by intros [= _ <-].
  - by intros [= _ <-].
  - destruct (for_subtypes _ _ _ _) as [e|[anns ns]] eqn:Hloop; simpl; [done|].
    intros [= _ <-]. apply for_subtypes_inv in Hloop as (rs & HF & _ & ->). simpl.
    clear anns. induction HF as [|t [a refs] ts rs' Ht _ IHrs]; simpl; [done|].
    apply Forall_cons in IH as [IHt IHts].
    rewrite fmap_app. apply sublist_app; [|by apply IHrs].
    by apply IHt in Ht.
  - destruct (parse_operation_field_type t _ _ _ _) as [e|[slice_ ns]] eqn:Hlower;
      simpl; [done|].
    intros [= _ <-]. by apply IH in Hlower.
  - apply IH.
  - done.
Qed.

Lemma references_follow_node_order_witness :
  sublist
    (type_name <$> [mkFieldNames "OpA" "A"; mkFieldNames "E" "E"])
    (named_nodes
       (GraphQLUnionType "U"
          [GraphQLObjectType "A"; GraphQLScalarType "Int"; GraphQLEnumType "E"])).
Proof.
  apply (references_follow_node_order
           (GraphQLUnionType "U"
              [GraphQLObjectType "A"; GraphQLScalarType "Int"; GraphQLEnumType "E"])
           false "Op" false None
           (UnionOf [Named (forward_reference "OpA"); Named "int"; Named "E"])).
  reflexivity.
Defined.
